(** * Password strength and user configuration parsing

    Shallow embedding of [archinstall/lib/models/users.py]:
    - [PasswordStrength.strength] and [PasswordStrength._check_password_strength];
    - [User], [User.json], [User._parse], [User._parse_backwards_compatible]
      and [User.parse_arguments]. *)

From Stdlib Require Import Bool Arith Lia List String Ascii Permutation.
Import ListNotations.
Open Scope string_scope.
Open Scope nat_scope.

(* ------------------------------------------------------------------ *)
(** ** Unicode characters as Python's [str] methods see them

    A Python string is a sequence of code points.  The single-character
    predicates [isdigit], [isupper], [islower] and [isalnum] of CPython
    read the flags that [makeunicodedata.py] derives from the Unicode
    character database: the general category, the numeric type and the
    [Other_Uppercase] / [Other_Lowercase] properties.  A code point is
    modelled by exactly these properties. *)

Inductive GeneralCategory :=
| Lu | Ll | Lt | Lm | Lo
| Mn | Mc | Me
| Nd | Nl | No
| Pc | Pd | Ps | Pe | Pi | Pf | Po
| Sm | Sc | Sk | So
| Zs | Zl | Zp
| Cc | Cf | Cs | Co | Cn.

Inductive NumericType := NT_None | NT_Decimal | NT_Digit | NT_Numeric.

Record uchar := UChar {
  gc : GeneralCategory;
  numeric_type : NumericType;
  other_uppercase : bool;
  other_lowercase : bool
}.

(** [ALPHA_MASK]: categories Lm, Lt, Lu, Ll, Lo. *)
Definition isalpha (c : uchar) : bool :=
  match gc c with Lu | Ll | Lt | Lm | Lo => true | _ => false end.

(** [DECIMAL_MASK]: Numeric_Type = Decimal. *)
Definition isdecimal (c : uchar) : bool :=
  match numeric_type c with NT_Decimal => true | _ => false end.

(** [DIGIT_MASK]: the digit field is set, i.e. Numeric_Type is Decimal or Digit. *)
Definition isdigit (c : uchar) : bool :=
  match numeric_type c with NT_Decimal | NT_Digit => true | _ => false end.

(** [NUMERIC_MASK]: any numeric value. *)
Definition isnumeric (c : uchar) : bool :=
  match numeric_type c with NT_None => false | _ => true end.

(** [UPPER_MASK]: derived property Uppercase = Lu + Other_Uppercase. *)
Definition isupper (c : uchar) : bool :=
  match gc c with Lu => true | _ => other_uppercase c end.

(** [LOWER_MASK]: derived property Lowercase = Ll + Other_Lowercase. *)
Definition islower (c : uchar) : bool :=
  match gc c with Ll => true | _ => other_lowercase c end.

(** [Py_UNICODE_ISALNUM]. *)
Definition isalnum (c : uchar) : bool :=
  isalpha c || isdecimal c || isdigit c || isnumeric c.

(** ASCII code points with their Unicode properties. *)
Definition of_ascii (a : ascii) : uchar :=
  let n := nat_of_ascii a in
  let mk g := UChar g NT_None false false in
  if (48 <=? n) && (n <=? 57) then UChar Nd NT_Decimal false false
  else if (65 <=? n) && (n <=? 90) then mk Lu
  else if (97 <=? n) && (n <=? 122) then mk Ll
  else if n =? 32 then mk Zs
  else if (n <? 32) || (127 <=? n) then mk Cc
  else match n with
       | 36 => mk Sc
       | 43 | 60 | 61 | 62 | 124 | 126 => mk Sm
       | 94 | 96 => mk Sk
       | 95 => mk Pc
       | 45 => mk Pd
       | 40 | 91 | 123 => mk Ps
       | 41 | 93 | 125 => mk Pe
       | _ => mk Po
       end.

Fixpoint ustr (s : string) : list uchar :=
  match s with
  | EmptyString => []
  | String a s' => of_ascii a :: ustr s'
  end.

(** Some non-ASCII code points. *)
Definition U_E_ACUTE_UPPER : uchar := UChar Lu NT_None false false.  (* U+00C9 *)
Definition U_E_ACUTE_LOWER : uchar := UChar Ll NT_None false false.  (* U+00E9 *)
Definition U_ARABIC_INDIC_3 : uchar := UChar Nd NT_Decimal false false. (* U+0663 *)
Definition U_SUPERSCRIPT_2 : uchar := UChar No NT_Digit false false. (* U+00B2 *)
Definition U_VULGAR_HALF : uchar := UChar No NT_Numeric false false. (* U+00BD *)
Definition U_ROMAN_EIGHT : uchar := UChar Nl NT_Numeric true false. (* U+2167 *)

(* ------------------------------------------------------------------ *)
(** ** [PasswordStrength] *)

Inductive PasswordStrength := VERY_WEAK | WEAK | MODERATE | STRONG.

Definition color (s : PasswordStrength) : string :=
  match s with
  | VERY_WEAK => "red"
  | WEAK => "red"
  | MODERATE => "yellow"
  | STRONG => "green"
  end.

(** A Python [match length:] block with guarded cases: the first case
    whose guard holds returns; when no case matches, control falls out of
    the block ([None]). *)
Fixpoint match_length (cases : list ((nat -> bool) * PasswordStrength)) (num : nat)
  : option PasswordStrength :=
  match cases with
  | [] => None
  | (guard, r) :: rest => if guard num then Some r else match_length rest num
  end.

Definition between (lo hi : nat) (num : nat) : bool := (lo <=? num) && (num <=? hi).

Definition tier_a_match : list ((nat -> bool) * PasswordStrength) :=
  [ (fun num => 13 <=? num, STRONG);
    (between 11 12, MODERATE);
    (between 7 10, WEAK);
    (fun num => num <=? 6, VERY_WEAK) ].

Definition tier_b_match : list ((nat -> bool) * PasswordStrength) :=
  [ (fun num => 14 <=? num, STRONG);
    (between 11 13, MODERATE);
    (between 7 10, WEAK);
    (fun num => num <=? 6, VERY_WEAK) ].

Definition tier_c_match : list ((nat -> bool) * PasswordStrength) :=
  [ (fun num => 15 <=? num, STRONG);
    (between 12 14, MODERATE);
    (between 7 11, WEAK);
    (fun num => num <=? 6, VERY_WEAK) ].

Definition tier_d_match : list ((nat -> bool) * PasswordStrength) :=
  [ (fun num => 18 <=? num, STRONG);
    (between 14 17, MODERATE);
    (between 9 13, WEAK);
    (fun num => num <=? 8, VERY_WEAK) ].

(** [PasswordStrength._check_password_strength]: the if/elif chain, each
    branch a [match length:] block; a block that matches nothing falls
    through to the final [return PasswordStrength.VERY_WEAK]. *)
Definition _check_password_strength
  (digit upper lower symbol : bool) (length : nat) : PasswordStrength :=
  let branch :=
    if digit && upper && lower && symbol then match_length tier_a_match length
    else if digit && upper && lower then match_length tier_b_match length
    else if upper && lower then match_length tier_c_match length
    else if lower || upper then match_length tier_d_match length
    else None in
  match branch with
  | Some r => r
  | None => VERY_WEAK
  end.

(** Python's [any(... for character in password)]. *)
Definition any (f : uchar -> bool) (password : list uchar) : bool := existsb f password.

Definition has_digit (password : list uchar) : bool := any isdigit password.
Definition has_upper (password : list uchar) : bool := any isupper password.
Definition has_lower (password : list uchar) : bool := any islower password.
Definition has_symbol (password : list uchar) : bool :=
  any (fun character => negb (isalnum character)) password.

(** [PasswordStrength.strength]; [len(password)] counts code points. *)
Definition strength (password : list uchar) : PasswordStrength :=
  _check_password_strength (has_digit password) (has_upper password)
    (has_lower password) (has_symbol password) (List.length password).

Example strength_empty : strength [] = VERY_WEAK.
Proof. reflexivity. Qed.
Example strength_ex1 : strength (ustr "Ab3!longerthanthirteenchars") = STRONG.
Proof. reflexivity. Qed.
Example strength_ex2 : strength (ustr "abcdefghi") = WEAK.
Proof. reflexivity. Qed.
Example strength_ex3 : strength (ustr "ABCDEFGHIJKLMNOP") = MODERATE.
Proof. reflexivity. Qed.
Example strength_ex4 : strength (ustr "12345678") = VERY_WEAK.
Proof. reflexivity. Qed.

(* ------------------------------------------------------------------ *)
(** ** Python exceptions and dictionaries *)

Inductive PyException := KeyError (key : string).

Inductive Result (A : Type) := Ok (a : A) | Raise (e : PyException).
Arguments Ok {A} a.
Arguments Raise {A} e.

Definition bind {A B} (m : Result A) (k : A -> Result B) : Result B :=
  match m with
  | Ok a => k a
  | Raise e => Raise e
  end.

Notation "x <- m ;; k" := (bind m (fun x => k)) (at level 61, m at next level, right associativity).

(** A [dict[str, V]] in insertion order: [d[key]] is the value of the
    first binding of [key], and raises [KeyError] when there is none. *)
Definition Dict (V : Type) := list (string * V).

Fixpoint getitem {V} (d : Dict V) (key : string) : Result V :=
  match d with
  | [] => Raise (KeyError key)
  | (k, v) :: rest => if String.eqb k key then Ok v else getitem rest key
  end.

(** [list(d.keys())] *)
Definition keys {V} (d : Dict V) : list string := map fst d.

(** [dict.get(key, default)] for an optional key. *)
Definition get {A} (field : option A) (default : A) : A :=
  match field with Some a => a | None => default end.

(** Truth value of a [str]. *)
Definition truthy (s : string) : bool :=
  match s with EmptyString => false | _ => true end.

(* ------------------------------------------------------------------ *)
(** ** [User] *)

Record User := mkUser {
  username : string;
  password : string;
  sudo : bool
}.

(** An entry of the current configuration: a dict with the keys
    ['username'], ['!password'] and ['sudo'], each possibly absent.
    The username key may also hold an explicit [null]:
    [None] is an absent key, [Some None] an explicit [null]. *)
Record UserEntry := mkEntry {
  entry_username : option (option string);
  entry_password : option string;
  entry_sudo : option bool
}.

(** [User.json] *)
Definition json (u : User) : UserEntry :=
  mkEntry (Some (Some (username u))) (Some (password u)) (Some (sudo u)).

(** [User._parse] *)
Fixpoint _parse (config_users : list UserEntry) : list User :=
  match config_users with
  | [] => []
  | entry :: rest =>
      let username := get (entry_username entry) None in
      let password := get (entry_password entry) "" in
      let sudo := get (entry_sudo entry) false in
      match username with
      | None => _parse rest
      | Some name => mkUser name password sudo :: _parse rest
      end
  end.

(** A legacy user map: [dict[str, dict[str, str]]]. *)
Definition LegacyUsers := Dict (Dict string).

(** [User._parse_backwards_compatible] *)
Definition _parse_backwards_compatible (config_users : LegacyUsers) (sudo : bool)
  : Result (list User) :=
  match keys config_users with
  | username :: _ =>
      sub <- getitem config_users username ;;
      password <- getitem sub "!password" ;;
      if truthy password then Ok [mkUser username password sudo] else Ok []
  | [] => Ok []
  end.

(** The two accepted shapes of [config_users]. *)
Inductive ConfigUsers :=
| UsersList (l : list UserEntry)
| UsersDict (d : LegacyUsers).

(** [User.parse_arguments]; [config_superusers] is [None] or a dict. *)
Definition parse_arguments (config_users : ConfigUsers)
  (config_superusers : option LegacyUsers) : Result (list User) :=
  users <- match config_users with
           | UsersDict d => _parse_backwards_compatible d false
           | UsersList l => Ok (_parse l)
           end ;;
  match config_superusers with
  | Some d => supers <- _parse_backwards_compatible d true ;; Ok (users ++ supers)%list
  | None => Ok users
  end.

Example parse_ex1 :
  parse_arguments (UsersList [mkEntry (Some (Some "ada")) (Some "x") (Some true)]) (Some [])
  = Ok [mkUser "ada" "x" true].
Proof. reflexivity. Qed.
Example parse_ex2 :
  parse_arguments (UsersList [mkEntry None (Some "x") None]) (Some []) = Ok [].
Proof. reflexivity. Qed.
Example parse_ex3 :
  parse_arguments (UsersDict [("root", [("!password", "pw")])]) None
  = Ok [mkUser "root" "pw" false].
Proof. reflexivity. Qed.
Example parse_ex4 :
  parse_arguments (UsersList []) (Some [("admin", [("!password", "pw")])])
  = Ok [mkUser "admin" "pw" true].
Proof. reflexivity. Qed.
Example parse_ex5 :
  parse_arguments (UsersList []) (Some [("admin", [("!password", "")])]) = Ok [].
Proof. reflexivity. Qed.

(* ------------------------------------------------------------------ *)
(** ** The strength table as the specification states it

    The tiers are tried in priority order, each with its length bands. *)

Inductive Tier := TierA | TierB | TierC | TierD | TierE.

Definition spec_tier (digit upper lower symbol : bool) : Tier :=
  if digit && upper && lower && symbol then TierA
  else if digit && upper && lower then TierB
  else if upper && lower then TierC
  else if lower || upper then TierD
  else TierE.

(** [bands vw w m len]: VeryWeak up to [vw], Weak up to [w], Moderate up
    to [m], Strong beyond. *)
Definition bands (vw w m : nat) (len : nat) : PasswordStrength :=
  if len <=? vw then VERY_WEAK
  else if len <=? w then WEAK
  else if len <=? m then MODERATE
  else STRONG.

Definition spec_band (t : Tier) (len : nat) : PasswordStrength :=
  match t with
  | TierA => bands 6 10 12 len
  | TierB => bands 6 10 13 len
  | TierC => bands 6 11 14 len
  | TierD => bands 8 13 17 len
  | TierE => VERY_WEAK
  end.

Definition classify_spec (password : list uchar) : PasswordStrength :=
  spec_band
    (spec_tier (has_digit password) (has_upper password)
       (has_lower password) (has_symbol password))
    (List.length password).

(** Order of the categories, weakest first. *)
Definition rank (s : PasswordStrength) : nat :=
  match s with VERY_WEAK => 0 | WEAK => 1 | MODERATE => 2 | STRONG => 3 end.

(* ------------------------------------------------------------------ *)
(** ** Lemmas on the [match length:] blocks *)

Ltac decide_leb :=
  repeat match goal with
         | |- context [?a <=? ?b] => destruct (Nat.leb_spec a b)
         end;
  simpl; try reflexivity; try lia.

Lemma tier_a_match_bands (n : nat) : match_length tier_a_match n = Some (bands 6 10 12 n).
Proof. unfold match_length, tier_a_match, between, bands; decide_leb. Qed.

Lemma tier_b_match_bands (n : nat) : match_length tier_b_match n = Some (bands 6 10 13 n).
Proof. unfold match_length, tier_b_match, between, bands; decide_leb. Qed.

Lemma tier_c_match_bands (n : nat) : match_length tier_c_match n = Some (bands 6 11 14 n).
Proof. unfold match_length, tier_c_match, between, bands; decide_leb. Qed.

Lemma tier_d_match_bands (n : nat) : match_length tier_d_match n = Some (bands 8 13 17 n).
Proof. unfold match_length, tier_d_match, between, bands; decide_leb. Qed.

(** Every branch of the if/elif chain agrees with the table. *)
Lemma check_password_strength_table (digit upper lower symbol : bool) (length : nat) :
  _check_password_strength digit upper lower symbol length
  = spec_band (spec_tier digit upper lower symbol) length.
Proof.
  unfold _check_password_strength, spec_tier.
  rewrite tier_a_match_bands, tier_b_match_bands, tier_c_match_bands, tier_d_match_bands.
  destruct digit, upper, lower, symbol; reflexivity.
Qed.

Lemma bands_monotone (vw w m l1 l2 : nat) :
  vw <= w -> w <= m -> l1 <= l2 -> rank (bands vw w m l1) <= rank (bands vw w m l2).
Proof. intros. unfold bands. decide_leb. Qed.

(** [existsb] as an existential over the members. *)
Lemma any_spec (f : uchar -> bool) (p : list uchar) :
  any f p = true <-> exists c, In c p /\ f c = true.
Proof. unfold any. apply existsb_exists. Qed.

(* ------------------------------------------------------------------ *)
(** ** Claims on [PasswordStrength.strength] *)

(** C1: [strength] picks the first matching composition tier (A: digit,
    upper, lower and symbol; B: digit, upper, lower; C: upper and lower;
    D: lower or upper; E: otherwise) and returns that tier's length band:
    A: <=6 VeryWeak, 7-10 Weak, 11-12 Moderate, >=13 Strong;
    B: <=6, 7-10, 11-13, >=14; C: <=6, 7-11, 12-14, >=15;
    D: <=8, 9-13, 14-17, >=18; E: always VeryWeak. *)
Theorem strength_follows_tier_table (password : list uchar) :
  strength password = classify_spec password.
Proof.
  unfold strength, classify_spec. apply check_password_strength_table.
Qed.

(** C2: the four flags of [strength]: [has_digit], [has_upper],
    [has_lower] hold iff some character is a digit, an upper-case, a
    lower-case character in Python's Unicode sense; [has_symbol] holds iff
    some character fails the Unicode alphanumeric test [isalnum], i.e. is
    neither a letter ([isalpha]) nor a decimal, digit or numeric character. *)
Theorem strength_flags_unicode (password : list uchar) :
  (has_digit password = true <-> exists c, In c password /\ isdigit c = true) /\
  (has_upper password = true <-> exists c, In c password /\ isupper c = true) /\
  (has_lower password = true <-> exists c, In c password /\ islower c = true) /\
  (has_symbol password = true <->
     exists c, In c password /\ isalpha c = false /\ isdecimal c = false
               /\ isdigit c = false /\ isnumeric c = false).
Proof.
  unfold has_digit, has_upper, has_lower, has_symbol.
  rewrite !any_spec.
  repeat split; try (intros [c [Hin Hc]]; exists c; split; assumption).
  - intros [c [Hin Hc]]. exists c. split; [assumption|].
    unfold isalnum in Hc.
    destruct (isalpha c), (isdecimal c), (isdigit c), (isnumeric c); easy.
  - intros [c [Hin [H1 [H2 [H3 H4]]]]]. exists c. split; [assumption|].
    unfold isalnum. rewrite H1, H2, H3, H4. reflexivity.
Qed.

Lemma strength_flags_unicode_witness :
  has_upper [U_E_ACUTE_UPPER] = true /\ has_digit [U_ARABIC_INDIC_3] = true /\
  (exists c, In c [U_E_ACUTE_UPPER] /\ isupper c = true).
Proof.
  split; [reflexivity|]. split; [reflexivity|].
  apply (proj1 (proj1 (proj2 (strength_flags_unicode [U_E_ACUTE_UPPER])))).
  reflexivity.
Defined.

(** C3: a password without any upper-case and any lower-case character
    (the empty string, digits and symbols only) is VeryWeak whatever its
    length. *)
Theorem strength_no_letters_very_weak (password : list uchar) :
  (forall c, In c password -> isupper c = false /\ islower c = false) ->
  strength password = VERY_WEAK.
Proof.
  intros H.
  assert (Hu : has_upper password = false).
  { apply not_true_is_false. intros Hu. apply any_spec in Hu.
    destruct Hu as [c [Hin Hc]]. destruct (H c Hin) as [Hc' _]. congruence. }
  assert (Hl : has_lower password = false).
  { apply not_true_is_false. intros Hl. apply any_spec in Hl.
    destruct Hl as [c [Hin Hc]]. destruct (H c Hin) as [_ Hc']. congruence. }
  unfold strength. rewrite check_password_strength_table. unfold spec_tier.
  rewrite Hu, Hl. destruct (has_digit password), (has_symbol password); reflexivity.
Qed.

Lemma strength_no_letters_very_weak_witness :
  strength (ustr "1234567890123456789012345!!") = VERY_WEAK.
Proof.
  apply strength_no_letters_very_weak.
  intros c Hin. simpl in Hin.
  repeat (destruct Hin as [<- | Hin]; [split; reflexivity|]). destruct Hin.
Defined.

(** C10: for fixed character-class flags the category is monotone in the
    length: [l1 <= l2] implies category(l1) <= category(l2) in the order
    VeryWeak < Weak < Moderate < Strong. *)
Theorem check_password_strength_monotone (digit upper lower symbol : bool) (l1 l2 : nat) :
  l1 <= l2 ->
  rank (_check_password_strength digit upper lower symbol l1)
  <= rank (_check_password_strength digit upper lower symbol l2).
Proof.
  intros Hle. rewrite !check_password_strength_table.
  destruct (spec_tier digit upper lower symbol); simpl;
    try (apply bands_monotone; lia); lia.
Qed.

Lemma check_password_strength_monotone_witness :
  rank (_check_password_strength false true true false 11)
  <= rank (_check_password_strength false true true false 12).
Proof. apply check_password_strength_monotone. lia. Defined.

(* ------------------------------------------------------------------ *)
(** ** Lemmas on the parsers *)

Lemma parse_bc_nil (sudo : bool) : _parse_backwards_compatible [] sudo = Ok [].
Proof. reflexivity. Qed.

(** Only the first binding is read. *)
Lemma parse_bc_cons (k : string) (sub : Dict string) (rest : LegacyUsers) (sudo : bool) :
  _parse_backwards_compatible ((k, sub) :: rest) sudo
  = (pw <- getitem sub "!password" ;;
     if truthy pw then Ok [mkUser k pw sudo] else Ok []).
Proof. unfold _parse_backwards_compatible. simpl. rewrite String.eqb_refl. reflexivity. Qed.

Lemma getitem_in {V} (d : Dict V) (key : string) :
  In key (keys d) -> exists v, getitem d key = Ok v.
Proof.
  induction d as [|[k v] rest IH]; simpl; [tauto|].
  intros [-> | Hin].
  - exists v. rewrite String.eqb_refl. reflexivity.
  - destruct (String.eqb k key); [eauto|]. apply IH, Hin.
Qed.

Lemma truthy_false (s : string) : truthy s = false <-> s = "".
Proof. destruct s; simpl; split; congruence. Qed.

(** The records of [_parse_backwards_compatible]: at most the first key,
    with the given [sudo] flag. *)
Lemma parse_bc_records (d : LegacyUsers) (flag : bool) (rs : list User) :
  _parse_backwards_compatible d flag = Ok rs ->
  forall r, In r rs -> In (username r) (firstn 1 (keys d)) /\ sudo r = flag.
Proof.
  destruct d as [|[k sub] rest].
  - simpl. intros [= <-] r [].
  - rewrite parse_bc_cons. simpl.
    destruct (getitem sub "!password") as [pw|e]; simpl; [|discriminate].
    destruct (truthy pw); intros [= <-] r; simpl; [|tauto].
    intros [<- | []]. simpl. split; [tauto | reflexivity].
Qed.

(** Entries with a present, non-null username. *)
Definition has_username (e : UserEntry) : bool :=
  match entry_username e with Some (Some _) => true | _ => false end.

Lemma parse_records (l : list UserEntry) :
  Forall2 (fun e r => entry_username e = Some (Some (username r))
                      /\ password r = get (entry_password e) ""
                      /\ sudo r = get (entry_sudo e) false)
    (filter has_username l) (_parse l).
Proof.
  induction l as [|e rest IH]; simpl; [constructor|].
  unfold has_username. destruct e as [[[n|]|] pw su]; simpl; auto.
Qed.

(** The usernames a configuration supplies: the non-null usernames of the
    entries, or the first key of a legacy map, then the first key of the
    superusers map. *)
Definition entry_names (l : list UserEntry) : list string :=
  flat_map (fun e => match entry_username e with Some (Some n) => [n] | _ => [] end) l.

Definition input_usernames (config_users : ConfigUsers)
  (config_superusers : option LegacyUsers) : list string :=
  (match config_users with
   | UsersList l => entry_names l
   | UsersDict d => firstn 1 (keys d)
   end ++
   match config_superusers with
   | Some d => firstn 1 (keys d)
   | None => []
   end)%list.

Lemma parse_usernames (l : list UserEntry) (r : User) :
  In r (_parse l) -> In (username r) (entry_names l).
Proof.
  induction l as [|e rest IH]; simpl; [tauto|].
  destruct e as [[[n|]|] pw su]; simpl; auto.
  intros [<- | Hin]; [left; reflexivity | right; auto].
Qed.

(** A well-formed legacy map: every sub-map has a ['!password'] key. *)
Definition well_formed_legacy (d : LegacyUsers) : Prop :=
  Forall (fun kv => In "!password" (keys (snd kv))) d.

Definition well_formed_config (config_users : ConfigUsers)
  (config_superusers : option LegacyUsers) : Prop :=
  match config_users with UsersDict d => well_formed_legacy d | UsersList _ => True end /\
  match config_superusers with Some d => well_formed_legacy d | None => True end.

Lemma parse_bc_total (d : LegacyUsers) (sudo : bool) :
  well_formed_legacy d -> exists rs, _parse_backwards_compatible d sudo = Ok rs.
Proof.
  destruct d as [|[k sub] rest]; intros Hwf; [eexists; reflexivity|].
  inversion Hwf as [|? ? Hhd _]; subst. simpl in Hhd.
  destruct (getitem_in sub "!password" Hhd) as [pw Hpw].
  rewrite parse_bc_cons, Hpw. simpl. destruct (truthy pw); eexists; reflexivity.
Qed.

(* ------------------------------------------------------------------ *)
(** ** Claims on [User.parse_arguments] *)

(** C4: for a current-shape list of entries, entries whose username is
    absent or [null] are skipped without error; every other entry gives
    exactly one record, in input order, with its username, its
    ['!password'] (default [""]) and its ['sudo'] (default [false]). *)
Theorem parse_current_shape (entries : list UserEntry) :
  exists rs, parse_arguments (UsersList entries) None = Ok rs /\
    Forall2 (fun e r => entry_username e = Some (Some (username r))
                        /\ password r = get (entry_password e) ""
                        /\ sudo r = get (entry_sudo e) false)
      (filter has_username entries) rs.
Proof.
  exists (_parse entries). split; [reflexivity|]. apply parse_records.
Qed.

(** C5: for a legacy-shape users map only the first key is read, the
    other bindings are ignored; with its password [pw], an empty [pw]
    gives no record and a non-empty one gives exactly the record
    [(key, pw, sudo = false)]. *)
Theorem parse_legacy_first_key (k : string) (sub : Dict string) (rest : LegacyUsers)
  (pw : string) :
  getitem sub "!password" = Ok pw ->
  (forall sup, parse_arguments (UsersDict ((k, sub) :: rest)) sup
               = parse_arguments (UsersDict [(k, sub)]) sup) /\
  (pw = "" -> parse_arguments (UsersDict ((k, sub) :: rest)) None = Ok []) /\
  (pw <> "" -> parse_arguments (UsersDict ((k, sub) :: rest)) None
               = Ok [mkUser k pw false]).
Proof.
  intros Hpw. split; [|split].
  - intros sup. unfold parse_arguments. rewrite !parse_bc_cons. reflexivity.
  - intros ->. unfold parse_arguments. rewrite parse_bc_cons, Hpw. reflexivity.
  - intros Hne. unfold parse_arguments. rewrite parse_bc_cons, Hpw. simpl.
    destruct (truthy pw) eqn:Ht; [reflexivity|].
    apply truthy_false in Ht. contradiction.
Qed.

Lemma parse_legacy_first_key_witness :
  parse_arguments (UsersDict [("root", [("!password", "pw")]); ("bob", [("!password", "x")])]) None
  = Ok [mkUser "root" "pw" false].
Proof.
  apply (parse_legacy_first_key "root" [("!password", "pw")] [("bob", [("!password", "x")])] "pw");
    [reflexivity | discriminate].
Defined.

(** C6: the result is the records of [config_users] followed by the
    record, if any, taken from the first key of the superusers map, which
    has [sudo = true]; nothing is appended when the superusers map is
    [None], empty, or its first password is empty. *)
Theorem parse_merge_superusers (cu : ConfigUsers) (sup : LegacyUsers)
  (users supers : list User) :
  parse_arguments cu None = Ok users ->
  _parse_backwards_compatible sup true = Ok supers ->
  parse_arguments cu (Some sup) = Ok (users ++ supers)%list /\
  Forall (fun r => sudo r = true) supers /\
  List.length supers <= 1 /\
  parse_arguments cu (Some []) = Ok users /\
  (sup = [] -> supers = []) /\
  (forall k sub rest pw, sup = (k, sub) :: rest -> getitem sub "!password" = Ok pw ->
     supers = if truthy pw then [mkUser k pw true] else []).
Proof.
  intros Hu Hs.
  assert (Hcu : exists r, (match cu with
                           | UsersDict d => _parse_backwards_compatible d false
                           | UsersList l => Ok (_parse l)
                           end) = Ok r /\ users = r).
  { unfold parse_arguments in Hu.
    destruct (match cu with
              | UsersDict d => _parse_backwards_compatible d false
              | UsersList l => Ok (_parse l)
              end) as [r|e]; simpl in Hu; [|discriminate].
    injection Hu as <-. eauto. }
  destruct Hcu as [r [Hr ->]].
  repeat split.
  - unfold parse_arguments. rewrite Hr. simpl. rewrite Hs. reflexivity.
  - apply Forall_forall. intros x Hx. apply (parse_bc_records _ _ _ Hs x Hx).
  - destruct sup as [|[k sub] rest].
    + injection Hs as <-. simpl. lia.
    + rewrite parse_bc_cons in Hs.
      destruct (getitem sub "!password") as [pw|e]; simpl in Hs; [|discriminate].
      destruct (truthy pw); injection Hs as <-; simpl; lia.
  - unfold parse_arguments. rewrite Hr. simpl. rewrite app_nil_r. reflexivity.
  - intros ->. injection Hs as <-. reflexivity.
  - intros k sub rest pw -> Hpw. rewrite parse_bc_cons, Hpw in Hs. simpl in Hs.
    destruct (truthy pw); injection Hs as <-; reflexivity.
Qed.

Lemma parse_merge_superusers_witness :
  parse_arguments (UsersList [mkEntry (Some (Some "ada")) (Some "x") None])
    (Some [("admin", [("!password", "pw")])])
  = Ok [mkUser "ada" "x" false; mkUser "admin" "pw" true].
Proof.
  apply (parse_merge_superusers (UsersList [mkEntry (Some (Some "ada")) (Some "x") None])
           [("admin", [("!password", "pw")])]
           [mkUser "ada" "x" false] [mkUser "admin" "pw" true]);
    reflexivity.
Defined.

(** C7: [User.json] is total, and parsing [[json r]] as current-shape
    input with an empty superusers map gives back exactly [[r]]. *)
Theorem json_parse_roundtrip (r : User) :
  parse_arguments (UsersList [json r]) (Some []) = Ok [r].
Proof. destruct r as [n pw su]. reflexivity. Qed.

(** C8 as stated fails: an entry whose username is the empty string is
    kept, so the output holds a record with an empty username. *)
Lemma parse_empty_username_counterexample :
  ~ (forall rs r,
       parse_arguments (UsersList [mkEntry (Some (Some "")) (Some "x") (Some false)]) None
       = Ok rs ->
       In r rs -> username r <> "").
Proof.
  intros H. apply (H [mkUser "" "x" false] (mkUser "" "x" false));
    [reflexivity | left; reflexivity | reflexivity].
Qed.

(** C8 amended: every record's username is copied from the input (the
    non-null username of a current-shape entry, or the first key of the
    legacy users map or of the superusers map) without any check; so the
    output usernames are all non-empty when those input usernames are. *)
Theorem parse_usernames_from_input (cu : ConfigUsers) (sup : option LegacyUsers)
  (rs : list User) :
  parse_arguments cu sup = Ok rs ->
  (forall r, In r rs -> In (username r) (input_usernames cu sup)) /\
  ((forall n, In n (input_usernames cu sup) -> n <> "") ->
   forall r, In r rs -> username r <> "").
Proof.
  intros Hp.
  assert (Hin : forall r, In r rs -> In (username r) (input_usernames cu sup)).
  { unfold parse_arguments in Hp. unfold input_usernames.
    destruct (match cu with
              | UsersDict d => _parse_backwards_compatible d false
              | UsersList l => Ok (_parse l)
              end) as [us|e] eqn:Hcu; simpl in Hp; [|discriminate].
    assert (Hus : forall r, In r us ->
              In (username r) (match cu with
                               | UsersList l => entry_names l
                               | UsersDict d => firstn 1 (keys d)
                               end)).
    { destruct cu as [l|d].
      - injection Hcu as <-. apply parse_usernames.
      - intros r Hr. apply (parse_bc_records _ _ _ Hcu r Hr). }
    destruct sup as [d|].
    - destruct (_parse_backwards_compatible d true) as [ss|e] eqn:Hs;
        simpl in Hp; [|discriminate].
      injection Hp as <-. intros r Hr. apply in_app_or in Hr as [Hr|Hr];
        apply in_or_app; [left; auto | right].
      apply (parse_bc_records _ _ _ Hs r Hr).
    - injection Hp as <-. intros r Hr. apply in_or_app. left. auto. }
  split; [exact Hin|].
  intros Hne r Hr. apply Hne, Hin, Hr.
Qed.

Lemma parse_usernames_from_input_witness :
  parse_arguments (UsersDict [("root", [("!password", "pw")])])
    (Some [("admin", [("!password", "a")])])
  = Ok [mkUser "root" "pw" false; mkUser "admin" "a" true] /\
  username (mkUser "admin" "a" true) <> "".
Proof.
  split; [reflexivity|].
  apply (proj2 (parse_usernames_from_input
                  (UsersDict [("root", [("!password", "pw")])])
                  (Some [("admin", [("!password", "a")])])
                  [mkUser "root" "pw" false; mkUser "admin" "a" true] eq_refl)).
  - simpl. intros n [<- | [<- | []]]; discriminate.
  - right. left. reflexivity.
Defined.

(** C9: [strength] is a total function of the password (and every
    [match length:] block of tiers A-D matches, so none falls through),
    and [parse_arguments] raises no exception on well-formed input: a list
    of entries or a legacy map whose sub-maps have a ['!password'] key,
    with an optional legacy superusers map of that form. *)
Theorem strength_total_parse_no_exception :
  (forall password, exists s, strength password = s) /\
  (forall n, match_length tier_a_match n <> None /\ match_length tier_b_match n <> None /\
             match_length tier_c_match n <> None /\ match_length tier_d_match n <> None) /\
  (forall cu sup, well_formed_config cu sup -> exists rs, parse_arguments cu sup = Ok rs).
Proof.
  split; [eauto|]. split.
  - intros n. rewrite tier_a_match_bands, tier_b_match_bands, tier_c_match_bands,
      tier_d_match_bands. repeat split; discriminate.
  - intros cu sup [Hwu Hws]. unfold parse_arguments.
    assert (Hu : exists us, (match cu with
                             | UsersDict d => _parse_backwards_compatible d false
                             | UsersList l => Ok (_parse l)
                             end) = Ok us).
    { destruct cu as [l|d]; [eexists; reflexivity|]. apply parse_bc_total, Hwu. }
    destruct Hu as [us ->]. simpl.
    destruct sup as [d|]; [|eexists; reflexivity].
    destruct (parse_bc_total d true Hws) as [ss ->]. simpl. eexists; reflexivity.
Qed.

Lemma strength_total_parse_no_exception_witness :
  exists rs, parse_arguments (UsersDict [("root", [("!password", "pw"); ("shell", "zsh")])])
               (Some [("admin", [("shell", "bash"); ("!password", "")])]) = Ok rs.
Proof.
  apply (proj2 (proj2 strength_total_parse_no_exception)).
  split; repeat constructor; simpl; tauto.
Defined.

(* ------------------------------------------------------------------ *)
(** ** Further properties of [strength] *)

Definition tier_index (t : Tier) : nat :=
  match t with TierE => 0 | TierD => 1 | TierC => 2 | TierB => 3 | TierA => 4 end.

(** More character classes never select a lower tier. *)
Lemma spec_tier_mono (d u l s d' u' l' s' : bool) :
  (d = true -> d' = true) -> (u = true -> u' = true) ->
  (l = true -> l' = true) -> (s = true -> s' = true) ->
  tier_index (spec_tier d u l s) <= tier_index (spec_tier d' u' l' s').
Proof.
  intros Hd Hu Hl Hs.
  destruct d, u, l, s, d', u', l', s'; simpl; try lia;
    first [ discriminate (Hd eq_refl) | discriminate (Hu eq_refl)
          | discriminate (Hl eq_refl) | discriminate (Hs eq_refl) ].
Qed.

(** A higher tier has lower thresholds. *)
Lemma spec_band_tier_mono (t t' : Tier) (len : nat) :
  tier_index t <= tier_index t' -> rank (spec_band t len) <= rank (spec_band t' len).
Proof.
  intros H. destruct t, t'; simpl in *; try lia; unfold bands; decide_leb.
Qed.

Lemma spec_band_len_mono (t : Tier) (l1 l2 : nat) :
  l1 <= l2 -> rank (spec_band t l1) <= rank (spec_band t l2).
Proof.
  intros H. destruct t; simpl; try (apply bands_monotone; lia); lia.
Qed.

Lemma any_app_l (f : uchar -> bool) (p q : list uchar) :
  any f p = true -> any f (p ++ q) = true.
Proof.
  rewrite !any_spec. intros [c [Hin Hc]]. exists c. split; [apply in_or_app; left|]; auto.
Qed.

Lemma any_perm (f : uchar -> bool) (p p' : list uchar) :
  Permutation p p' -> any f p = any f p'.
Proof.
  intros Hp. destruct (any f p) eqn:E1, (any f p') eqn:E2; auto.
  - apply any_spec in E1 as [c [Hin Hc]].
    assert (any f p' = true) by (apply any_spec; exists c; split;
      [apply (Permutation_in _ Hp Hin) | exact Hc]). congruence.
  - apply any_spec in E2 as [c [Hin Hc]].
    assert (any f p = true) by (apply any_spec; exists c; split;
      [apply (Permutation_in _ (Permutation_sym Hp) Hin) | exact Hc]). congruence.
Qed.

(** X1: [strength] depends only on the multiset of characters: reordering
    the characters of a password does not change its strength. *)
Theorem strength_permutation (p p' : list uchar) :
  Permutation p p' -> strength p = strength p'.
Proof.
  intros Hp. unfold strength, has_digit, has_upper, has_lower, has_symbol.
  rewrite !(any_perm _ _ _ Hp), (Permutation_length Hp). reflexivity.
Qed.

Lemma strength_permutation_witness :
  strength (ustr "abc1") = strength (ustr "1abc").
Proof.
  apply strength_permutation.
  apply Permutation_sym, (Permutation_cons_append (ustr "abc") (of_ascii "1"%char)).
Defined.

(** X2: appending characters to a password never lowers its strength in
    the order VeryWeak < Weak < Moderate < Strong. *)
Theorem strength_append_mono (p q : list uchar) :
  rank (strength p) <= rank (strength (p ++ q)).
Proof.
  unfold strength. rewrite !check_password_strength_table.
  eapply Nat.le_trans.
  - apply spec_band_tier_mono.
    apply (spec_tier_mono _ _ _ _ (has_digit (p ++ q)) (has_upper (p ++ q))
             (has_lower (p ++ q)) (has_symbol (p ++ q))); apply any_app_l.
  - apply spec_band_len_mono. rewrite length_app. lia.
Qed.

(** X3: a password of at most 6 characters is VeryWeak, and a Strong
    password has at least 13 characters and an upper- or lower-case
    character. *)
Theorem strength_length_bounds (p : list uchar) :
  (List.length p <= 6 -> strength p = VERY_WEAK) /\
  (strength p = STRONG -> 13 <= List.length p /\ (has_upper p || has_lower p) = true).
Proof.
  unfold strength. rewrite check_password_strength_table. unfold spec_tier.
  destruct (has_digit p), (has_upper p), (has_lower p), (has_symbol p); simpl;
    unfold bands; split; intros H;
    repeat match goal with
           | H : context [?a <=? ?b] |- _ => destruct (Nat.leb_spec a b)
           end;
    decide_leb; try discriminate H; try (split; [lia | reflexivity]).
Qed.

Lemma strength_length_bounds_witness :
  strength (ustr "Ab3!xy") = VERY_WEAK /\
  (strength (ustr "Ab3!longerthanthirteenchars") = STRONG ->
   13 <= List.length (ustr "Ab3!longerthanthirteenchars")).
Proof.
  split.
  - apply (proj1 (strength_length_bounds (ustr "Ab3!xy"))). simpl. lia.
  - intros H. apply (proj2 (strength_length_bounds _) H).
Defined.

(* ------------------------------------------------------------------ *)
(** ** Further properties of the parsers *)

Lemma getitem_raise {V} (d : Dict V) (key : string) (e : PyException) :
  getitem d key = Raise e -> e = KeyError key /\ ~ In key (keys d).
Proof.
  induction d as [|[k v] rest IH]; simpl.
  - intros [= <-]. tauto.
  - destruct (String.eqb k key) eqn:Ek; [discriminate|].
    intros H. destruct (IH H) as [He Hn]. split; [exact He|].
    intros [-> | Hin]; [rewrite String.eqb_refl in Ek; discriminate | tauto].
Qed.

Lemma getitem_notin {V} (d : Dict V) (key : string) :
  ~ In key (keys d) -> getitem d key = Raise (KeyError key).
Proof.
  induction d as [|[k v] rest IH]; simpl; [reflexivity|].
  intros Hn. destruct (String.eqb_spec k key) as [-> | _]; [tauto|].
  apply IH. tauto.
Qed.

Lemma parse_bc_raise (d : LegacyUsers) (flag : bool) (e : PyException) :
  _parse_backwards_compatible d flag = Raise e -> e = KeyError "!password".
Proof.
  destruct d as [|[k sub] rest]; [discriminate|]. rewrite parse_bc_cons.
  destruct (getitem sub "!password") eqn:E; simpl.
  - destruct (truthy a); discriminate.
  - intros [= ->]. apply (getitem_raise _ _ _ E).
Qed.

Lemma parse_bc_password (d : LegacyUsers) (flag : bool) (rs : list User) :
  _parse_backwards_compatible d flag = Ok rs ->
  Forall (fun r => password r <> "") rs /\ List.length rs <= 1.
Proof.
  destruct d as [|[k sub] rest]; [intros [= <-]; simpl; auto|].
  rewrite parse_bc_cons. destruct (getitem sub "!password") as [pw|e]; simpl; [|discriminate].
  destruct (truthy pw) eqn:Ht; intros [= <-]; simpl; [|auto].
  split; [|lia]. constructor; [|constructor]. simpl. intros ->. discriminate.
Qed.

(** X4: serialising a list of users with [User.json] and parsing it back
    as current-shape input gives the same list, with no superusers map or
    with an empty one. *)
Theorem json_parse_roundtrip_list (us : list User) :
  parse_arguments (UsersList (map json us)) None = Ok us /\
  parse_arguments (UsersList (map json us)) (Some []) = Ok us.
Proof.
  assert (H : _parse (map json us) = us).
  { induction us as [|[n pw su] rest IH]; simpl; [reflexivity|]. rewrite IH. reflexivity. }
  unfold parse_arguments. simpl. rewrite H, app_nil_r. split; reflexivity.
Qed.

(** X5: [User._parse] works entry by entry: parsing a concatenation of
    entry lists gives the concatenation of the results, and the number of
    records is the number of entries with a non-null username. *)
Theorem parse_app_length (l1 l2 : list UserEntry) :
  _parse (l1 ++ l2) = (_parse l1 ++ _parse l2)%list /\
  List.length (_parse l1) = List.length (filter has_username l1).
Proof.
  split.
  - induction l1 as [|e rest IH]; simpl; [reflexivity|].
    destruct (get (entry_username e) None); simpl; rewrite IH; reflexivity.
  - symmetry. apply (Forall2_length (parse_records l1)).
Qed.

(** X6: the only exception [User.parse_arguments] can raise is
    [KeyError('!password')]. *)
Theorem parse_arguments_only_keyerror (cu : ConfigUsers) (sup : option LegacyUsers)
  (e : PyException) :
  parse_arguments cu sup = Raise e -> e = KeyError "!password".
Proof.
  unfold parse_arguments.
  destruct (match cu with
            | UsersDict d => _parse_backwards_compatible d false
            | UsersList l => Ok (_parse l)
            end) as [us|e'] eqn:Hcu; simpl.
  - destruct sup as [d|]; [|discriminate].
    destruct (_parse_backwards_compatible d true) as [ss|e''] eqn:Hs; simpl; [discriminate|].
    intros [= ->]. apply (parse_bc_raise _ _ _ Hs).
  - intros [= ->]. destruct cu; [discriminate|]. apply (parse_bc_raise _ _ _ Hcu).
Qed.

Lemma parse_arguments_only_keyerror_witness :
  parse_arguments (UsersDict [("root", [("shell", "zsh")])]) None
  = Raise (KeyError "!password") /\ KeyError "!password" = KeyError "!password".
Proof.
  split; [reflexivity|].
  apply (parse_arguments_only_keyerror (UsersDict [("root", [("shell", "zsh")])]) None).
  reflexivity.
Defined.

(** X7: when the first sub-map of the legacy users map has no
    ['!password'] key, [parse_arguments] raises [KeyError('!password')]
    whatever the superusers map; likewise for the first sub-map of the
    superusers map, whatever the users. *)
Theorem parse_arguments_missing_password (k : string) (sub : Dict string)
  (rest : LegacyUsers) :
  ~ In "!password" (keys sub) ->
  (forall sup, parse_arguments (UsersDict ((k, sub) :: rest)) sup
               = Raise (KeyError "!password")) /\
  (forall cu, (exists us, parse_arguments cu None = Ok us) ->
     parse_arguments cu (Some ((k, sub) :: rest)) = Raise (KeyError "!password")).
Proof.
  intros Hn. split.
  - intros sup. unfold parse_arguments. rewrite parse_bc_cons, (getitem_notin _ _ Hn).
    reflexivity.
  - intros cu [us Hu]. unfold parse_arguments in *.
    destruct (match cu with
              | UsersDict d => _parse_backwards_compatible d false
              | UsersList l => Ok (_parse l)
              end); simpl in *; [|discriminate].
    rewrite parse_bc_cons, (getitem_notin _ _ Hn). reflexivity.
Qed.

Lemma parse_arguments_missing_password_witness :
  parse_arguments (UsersList []) (Some [("admin", [("shell", "bash")])])
  = Raise (KeyError "!password").
Proof.
  apply (parse_arguments_missing_password "admin" [("shell", "bash")] []).
  - simpl. intros [H | []]. discriminate.
  - exists []. reflexivity.
Defined.

(** X8: with a legacy users map, every record produced has a non-empty
    password and there are at most two records (one from the users map,
    one from the superusers map). *)
Theorem parse_legacy_records_nonempty_password (d : LegacyUsers)
  (sup : option LegacyUsers) (rs : list User) :
  parse_arguments (UsersDict d) sup = Ok rs ->
  Forall (fun r => password r <> "") rs /\ List.length rs <= 2.
Proof.
  unfold parse_arguments.
  destruct (_parse_backwards_compatible d false) as [us|e] eqn:Hu; simpl; [|discriminate].
  destruct (parse_bc_password _ _ _ Hu) as [Pu Lu].
  destruct sup as [s|].
  - destruct (_parse_backwards_compatible s true) as [ss|e] eqn:Hs; simpl; [|discriminate].
    destruct (parse_bc_password _ _ _ Hs) as [Ps Ls].
    intros [= <-]. split; [apply Forall_app; auto | rewrite length_app; lia].
  - intros [= <-]. split; [auto | lia].
Qed.

Lemma parse_legacy_records_nonempty_password_witness :
  Forall (fun r => password r <> "") [mkUser "root" "pw" false; mkUser "admin" "a" true].
Proof.
  apply (proj1 (parse_legacy_records_nonempty_password
                  [("root", [("!password", "pw")])]
                  (Some [("admin", [("!password", "a")])])
                  [mkUser "root" "pw" false; mkUser "admin" "a" true] eq_refl)).
Defined.
